(** * Post-hoc calibration utilities: a shallow embedding of
      [sri_maper/src/utils/posthoc_utils.py]

    The Python module holds three classes:
    - [BinaryTemperatureScaling]: one learnable scalar that divides logits,
      fitted on a validation subset;
    - [_ECELoss]: the expected calibration error of logits against labels;
    - [ThresholdMoving]: a grid search of the decision threshold that
      maximises a caller-supplied metric.

    Numbers.  Tensor entries are finite floating-point numbers in the source.
    Every finite float is a rational, and comparisons of finite floats are
    exact, so entries are embedded as [Q] with exact arithmetic; rounding of
    [+], [*] and [/] is not modelled.  The one place where the source relies
    on a non-finite value (the mean of an empty tensor is NaN) is modelled
    explicitly by the type [scalar] below.

    Library primitives ([torch.sigmoid], [nn.BCEWithLogitsLoss],
    [optim.LBFGS], the wrapped model and the data module) are not part of the
    file under study: they are parameters of the sections that use them. *)

From Stdlib Require Import List ZArith QArith Qabs Qround Lia Lqa Bool.
From Stdlib Require Import Permutation Morphisms.
Import ListNotations.

Open Scope Q_scope.

(** ** Python results: a value or a raised exception *)

Inductive exn : Type :=
| IsliceValueError      (* itertools.islice: negative stop *)
| CatEmptyList          (* torch.cat on an empty list of tensors *)
| ConcatenateEmptyList  (* np.concatenate on an empty list of arrays *)
| TargetSizeMismatch    (* BCEWithLogitsLoss: target size differs from input size *)
| ArgmaxEmptySequence.  (* np.argmax on an empty sequence *)

Inductive result (A : Type) : Type :=
| Ok (a : A)
| Raise (e : exn).
Arguments Ok {A} a.
Arguments Raise {A} e.

Definition bind {A B : Type} (r : result A) (k : A -> result B) : result B :=
  match r with
  | Ok a => k a
  | Raise e => Raise e
  end.

Notation "x <- r ;; k" := (bind r (fun x => k))
  (at level 61, r at next level, right associativity).

(** ** Comparisons on tensor entries *)

Definition Qleb (x y : Q) : bool := Qle_bool x y.
Definition Qltb (x y : Q) : bool := negb (Qle_bool y x).

(** ** Scalars produced by reductions

    [torch.mean] of an empty tensor is NaN (0/0); every comparison with NaN
    is false and arithmetic propagates it. *)

Inductive scalar : Type :=
| Fin (q : Q)
| NaN.

Definition s_add (a b : scalar) : scalar :=
  match a, b with Fin x, Fin y => Fin (x + y) | _, _ => NaN end.
Definition s_sub (a b : scalar) : scalar :=
  match a, b with Fin x, Fin y => Fin (x - y) | _, _ => NaN end.
Definition s_mul (a b : scalar) : scalar :=
  match a, b with Fin x, Fin y => Fin (x * y) | _, _ => NaN end.
Definition s_abs (a : scalar) : scalar :=
  match a with Fin x => Fin (Qabs x) | NaN => NaN end.
(** [a.item() > 0] *)
Definition s_gt0 (a : scalar) : bool :=
  match a with Fin x => Qltb 0 x | NaN => false end.

Definition sum (xs : list Q) : Q := fold_right Qplus 0 xs.

Definition of_nat (n : nat) : Q := inject_Z (Z.of_nat n).

(** [xs.mean()] *)
Definition mean (xs : list Q) : scalar :=
  match xs with
  | [] => NaN
  | _ :: _ => Fin (sum xs / of_nat (length xs))
  end.

(** [b.float()] on a boolean tensor *)
Definition float (b : bool) : Q := if b then 1 else 0.

(** [xs[m]]: boolean-mask indexing, the entries of [xs] where [m] holds *)
Fixpoint masked {A : Type} (xs : list A) (m : list bool) : list A :=
  match xs, m with
  | x :: xs', b :: m' => if b then x :: masked xs' m' else masked xs' m'
  | _, _ => []
  end.

(** ** Tensors

    A tensor is its shape together with its entries in row-major order. *)

Record tensor : Type := mkTensor { shape : list nat; data : list Q }.

Definition numel (t : tensor) : nat := length (data t).

(** [t / s] for a zero-dimensional [s]: the scalar is broadcast. *)
Definition tensor_div_scalar (t : tensor) (s : Q) : tensor :=
  {| shape := shape t; data := map (fun x => x / s) (data t) |}.

(** [xs.reshape(-1, 1)] *)
Definition reshape_column (xs : list Q) : tensor :=
  {| shape := [length xs; 1%nat]; data := xs |}.

(** [torch.linspace(start, stop, steps)] *)
Definition torch_linspace (start stop : Q) (steps : nat) : list Q :=
  map (fun i => start + of_nat i * ((stop - start) / (of_nat steps - 1)))
      (seq 0 steps).

(** [torch.cat(ts)] of tensors that are flattened afterwards *)
Definition torch_cat (ts : list (list Q)) : result (list Q) :=
  match ts with
  | [] => Raise CatEmptyList
  | _ :: _ => Ok (concat ts)
  end.

(** [np.concatenate(ts, axis=None)] *)
Definition np_concatenate (ts : list (list Q)) : result (list Q) :=
  match ts with
  | [] => Raise ConcatenateEmptyList
  | _ :: _ => Ok (concat ts)
  end.

(** [np.arange(start, stop, step)]: [ceil((stop - start) / step)] values
    [start + i * step] *)
Definition np_arange (start stop step : Q) : list Q :=
  map (fun i => start + of_nat i * step)
      (seq 0 (Z.to_nat (Qceiling ((stop - start) / step)))).

(** [np.argmax(xs)]: the index of the first occurrence of the maximum.
    [argmax_from best_i best i xs] scans [xs], whose head has index [i]. *)
Fixpoint argmax_from (best_i : nat) (best : Q) (i : nat) (xs : list Q) : nat :=
  match xs with
  | [] => best_i
  | x :: xs' =>
      if Qltb best x then argmax_from i x (S i) xs'
      else argmax_from best_i best (S i) xs'
  end.

Definition np_argmax (xs : list Q) : result nat :=
  match xs with
  | [] => Raise ArgmaxEmptySequence
  | x :: xs' => Ok (argmax_from 0 x 1 xs')
  end.

(** Python's [int(x)] on a number: truncation towards zero *)
Definition int (x : Q) : Z := Z.quot (Qnum x) (Zpos (Qden x)).

(** [itertools.islice(it, stop)] *)
Definition islice {A : Type} (it : list A) (stop : Z) : result (list A) :=
  if (stop <? 0)%Z then Raise IsliceValueError
  else Ok (firstn (Z.to_nat stop) it).

(** What [log.info] receives *)
Inductive log_line : Type :=
| BeforeTemperature (nll : Q) (ece : scalar)
| AfterTemperature (nll : Q) (ece : scalar)
| ThresholdScore (threshold score : Q).

(** What a call leaves behind: the value returned or the exception raised,
    the object afterwards, and the lines logged. *)
Record run (A S : Type) : Type :=
  mkRun { returned : result A; final : S; logged : list log_line }.
Arguments mkRun {A S} returned final logged.
Arguments returned {A S} r.
Arguments final {A S} r.
Arguments logged {A S} r.

(** ** The three classes *)

Section Posthoc.

(** [torch.sigmoid] on one entry *)
Variable sigmoid : Q -> Q.
(** [nn.BCEWithLogitsLoss()(input, target)] on two tensors of one size *)
Variable bce_with_logits : list Q -> list Q -> Q.
(** [optim.LBFGS(params, lr, max_iter).step(closure)]: the optimizer reads and
    writes the parameters it was built with, and nothing else; [closure]
    gives the loss at a value of these parameters.  The result is the value
    of the parameters after the step. *)
Variable lbfgs_step : Q -> nat -> (list Q -> Q) -> list Q -> list Q.
(** The wrapped model, with its parameters; a batch of inputs *)
Context {Model Inputs : Type}.
(** [model(inputs)] and [model.calibrated_forward(inputs)], entries in
    row-major order *)
Variable model_forward : Model -> Inputs -> list Q.
Variable calibrated_forward : Model -> Inputs -> list Q.
(** [datamodule.val_dataloader(shuffle)]: the batches [(inputs, label)] in the
    order this loader yields them; [len] of the loader is their number. *)
Context {DataModule : Type}.
Variable val_dataloader : DataModule -> bool -> list (Inputs * list Q).

(** *** _ECELoss *)

Record ECELoss : Type := mkECELoss { bin_lowers : list Q; bin_uppers : list Q }.

Definition ECELoss_init (n_bins : nat) : ECELoss :=
  let bin_boundaries := torch_linspace 0 1 (n_bins + 1) in
  {| bin_lowers := removelast bin_boundaries; bin_uppers := tl bin_boundaries |}.

(** The body of the loop over the bins: the new value of [ece]. *)
Definition ece_bin (confidences : list Q) (accuracies : list bool)
    (ece : scalar) (bin : Q * Q) : scalar :=
  let (bin_lower, bin_upper) := bin in
  let in_bin :=
    map (fun c => Qltb bin_lower c && Qleb c bin_upper) confidences in
  let prop_in_bin := mean (map float in_bin) in
  if s_gt0 prop_in_bin then
    let accuracy_in_bin := mean (map float (masked accuracies in_bin)) in
    let avg_confidence_in_bin := mean (masked confidences in_bin) in
    s_add ece (s_mul (s_abs (s_sub avg_confidence_in_bin accuracy_in_bin))
                     prop_in_bin)
  else ece.

Definition forward (self : ECELoss) (logits labels : list Q) : scalar :=
  let confidences := map sigmoid logits in
  let predictions := map (fun c => Qltb (1 # 2) c) confidences in
  let accuracies :=
    map (fun py => Qeq_bool (float (fst py)) (snd py))
        (combine predictions labels) in
  fold_left (ece_bin confidences accuracies)
            (combine (bin_lowers self) (bin_uppers self)) (Fin 0).

(** *** BinaryTemperatureScaling *)

Record BinaryTemperatureScaling : Type :=
  mkBinaryTemperatureScaling { model : Model; temperature : Q }.

Definition BinaryTemperatureScaling_init (m : Model) : BinaryTemperatureScaling :=
  {| model := m; temperature := 3 # 2 |}.

Definition temperature_scale (self : BinaryTemperatureScaling)
    (logits : tensor) : tensor :=
  tensor_div_scalar logits (temperature self).

Definition set_temperature (self : BinaryTemperatureScaling) (t : Q)
  : BinaryTemperatureScaling :=
  {| model := model self; temperature := t |}.

(** [int(len(val_loader) * val_fraction)] *)
Definition batch_limit_of (val_loader : list (Inputs * list Q))
    (val_fraction : Q) : Z :=
  int (of_nat (length val_loader) * val_fraction).

(** The first block of [calibrate]: the logits and labels of the selected
    batches, as column tensors. *)
Definition collect_logits (self : BinaryTemperatureScaling)
    (datamodule : DataModule) (val_fraction : Q) : result (tensor * tensor) :=
  let val_loader := val_dataloader datamodule true in
  let batch_limit := batch_limit_of val_loader val_fraction in
  batches <- islice val_loader batch_limit ;;
  let logits_list := map (fun b => model_forward (model self) (fst b)) batches in
  let labels_list := map snd batches in
  logits <- torch_cat logits_list ;;
  labels <- torch_cat labels_list ;;
  Ok (reshape_column logits, reshape_column labels).

(** [nll_criterion(input, target)]: the loss raises on tensors of two sizes. *)
Definition nll_criterion (input target : tensor) : result Q :=
  if (numel input =? numel target)%nat
  then Ok (bce_with_logits (data input) (data target))
  else Raise TargetSizeMismatch.

Definition calibrate (self : BinaryTemperatureScaling)
    (datamodule : DataModule) (val_fraction : Q)
  : run Q BinaryTemperatureScaling :=
  let ece_criterion := ECELoss_init 15 in
  match collect_logits self datamodule val_fraction with
  | Raise e => mkRun (Raise e) self []
  | Ok (logits, labels) =>
      match nll_criterion logits labels with
      | Raise e => mkRun (Raise e) self []
      | Ok before_temperature_nll =>
          let before_temperature_ece :=
            forward ece_criterion (data logits) (data labels) in
          let eval_closure := fun params : list Q =>
            bce_with_logits
              (data (temperature_scale
                       (set_temperature self (nth 0 params (temperature self)))
                       logits))
              (data labels) in
          let params := lbfgs_step (1 # 100) 50 eval_closure [temperature self] in
          let self' := set_temperature self (nth 0 params (temperature self)) in
          let after_temperature_nll :=
            bce_with_logits (data (temperature_scale self' logits)) (data labels) in
          let after_temperature_ece :=
            forward ece_criterion (data (temperature_scale self' logits))
                    (data labels) in
          mkRun (Ok (temperature self')) self'
                [BeforeTemperature before_temperature_nll before_temperature_ece;
                 AfterTemperature after_temperature_nll after_temperature_ece]
      end
  end.

(** *** ThresholdMoving *)

Record ThresholdMoving : Type := mkThresholdMoving { tm_model : Model }.

(** [(pos_probs >= threshold).astype('int')] *)
Definition to_labels (pos_probs : list Q) (threshold : Q) : list Z :=
  map (fun p => if Qleb threshold p then 1%Z else 0%Z) pos_probs.

(** The first block of [search_threshold]: the probabilities and the labels
    of the selected batches, flattened. *)
Definition collect_probabilities (self : ThresholdMoving)
    (datamodule : DataModule) (val_fraction : Q) : result (list Q * list Q) :=
  let val_loader := val_dataloader datamodule true in
  let batch_limit := batch_limit_of val_loader val_fraction in
  batches <- islice val_loader batch_limit ;;
  let logits :=
    map (fun b => map sigmoid (calibrated_forward (tm_model self) (fst b)))
        batches in
  let labels := map snd batches in
  logits <- np_concatenate logits ;;
  labels <- np_concatenate labels ;;
  Ok (logits, labels).

Definition thresholds : list Q := np_arange 0 1 (1 # 1000).

(** [scores] of [search_threshold] *)
Definition threshold_scores (max_metric : list Q -> list Z -> Q)
    (logits labels : list Q) : list Q :=
  map (fun t => max_metric labels (to_labels logits t)) thresholds.

Definition search_threshold (self : ThresholdMoving)
    (max_metric : list Q -> list Z -> Q)
    (datamodule : DataModule) (val_fraction : Q) : run Q ThresholdMoving :=
  match collect_probabilities self datamodule val_fraction with
  | Raise e => mkRun (Raise e) self []
  | Ok (logits, labels) =>
      let scores := threshold_scores max_metric logits labels in
      match np_argmax scores with
      | Raise e => mkRun (Raise e) self []
      | Ok ix =>
          mkRun (Ok (nth ix thresholds 0)) self
                [ThresholdScore (nth ix thresholds 0) (nth ix scores 0)]
      end
  end.

(** *** The calibration error in the words of the specification

    Sigmoid confidences; class 1 predicted iff the confidence exceeds 1/2;
    [n_bins] equal-width bins of [0,1], bin [b] holding the confidences [c]
    with [b/n_bins < c <= (b+1)/n_bins]; a non-empty bin contributes
    [|avg_confidence - accuracy| * (population / total)], an empty one 0. *)

Definition in_interval (lower upper c : Q) : bool :=
  Qltb lower c && Qleb c upper.

(** A sample is a confidence with its label; it is correct when the class
    predicted from the confidence is the label. *)
Definition correct (sample : Q * Q) : bool :=
  Qeq_bool (float (Qltb (1 # 2) (fst sample))) (snd sample).

Definition interval_contribution (lower upper : Q) (samples : list (Q * Q)) : Q :=
  let members := filter (fun s => in_interval lower upper (fst s)) samples in
  match members with
  | [] => 0
  | _ :: _ =>
      let population := of_nat (length members) in
      let avg_confidence := sum (map fst members) / population in
      let accuracy := of_nat (length (filter correct members)) / population in
      Qabs (avg_confidence - accuracy) * (population / of_nat (length samples))
  end.

Definition bin_contribution (n_bins : nat) (samples : list (Q * Q)) (b : nat) : Q :=
  interval_contribution (of_nat b / of_nat n_bins) (of_nat (S b) / of_nat n_bins)
                        samples.

Definition ece_samples (n_bins : nat) (samples : list (Q * Q)) : Q :=
  sum (map (bin_contribution n_bins samples) (seq 0 n_bins)).


(** The boundary [i] of [torch.linspace(0, 1, n_bins + 1)] *)
Definition boundary (n_bins i : nat) : Q :=
  0 + of_nat i * ((1 - 0) / (of_nat (S n_bins) - 1)).

(** [k] is the first position of [l] that holds its maximum. *)
Definition first_max (l : list Q) (k : nat) : Prop :=
  (k < length l)%nat /\
  (forall j, (j < length l)%nat -> nth j l 0 <= nth k l 0) /\
  (forall j, (j < k)%nat -> nth j l 0 < nth k l 0).

End Posthoc.

Arguments BinaryTemperatureScaling : clear implicits.
Arguments ThresholdMoving : clear implicits.

(** ** A concrete setting, for the examples

    A model that returns its inputs as logits, a data module that is the
    list of its batches, a two-valued stand-in for the sigmoid, a loss that
    is constantly 0, an optimizer that makes no step, and the number of
    agreements as metric. *)

Definition example_sigmoid (x : Q) : Q :=
  if Qltb 0 x then 881 # 1000 else if Qltb x 0 then 119 # 1000 else 1 # 2.

Definition example_model (_ : unit) (inputs : list Q) : list Q := inputs.

Definition example_loader (batches : list (list Q * list Q)) (_ : bool)
  : list (list Q * list Q) := batches.

Definition example_bce (_ _ : list Q) : Q := 0.

Definition example_lbfgs (_ : Q) (_ : nat) (_ : list Q -> Q) (params : list Q)
  : list Q := params.

Definition example_metric (labels : list Q) (predicted : list Z) : Q :=
  of_nat (length (filter (fun yp : Q * Z => Qeq_bool (fst yp) (inject_Z (snd yp)))
                         (combine labels predicted))).

Definition example_calibrator : BinaryTemperatureScaling unit :=
  BinaryTemperatureScaling_init tt.

Definition example_searcher : ThresholdMoving unit := mkThresholdMoving tt.

Definition example_calibrate (dm : list (list Q * list Q)) (val_fraction : Q)
  : run Q (BinaryTemperatureScaling unit) :=
  calibrate example_sigmoid example_bce example_lbfgs example_model
            example_loader example_calibrator dm val_fraction.

Definition example_search_threshold (dm : list (list Q * list Q))
    (val_fraction : Q) : run Q (ThresholdMoving unit) :=
  search_threshold example_sigmoid example_model example_loader
                   example_searcher example_metric dm val_fraction.

(** * Properties *)

Section PosthocProperties.

Variable sigmoid : Q -> Q.
Variable bce_with_logits : list Q -> list Q -> Q.
Variable lbfgs_step : Q -> nat -> (list Q -> Q) -> list Q -> list Q.
Context {Model Inputs : Type}.
Variable model_forward : Model -> Inputs -> list Q.
Variable calibrated_forward : Model -> Inputs -> list Q.
Context {DataModule : Type}.
Variable val_dataloader : DataModule -> bool -> list (Inputs * list Q).


(** ** Comparisons *)

Lemma Qleb_le x y : Qleb x y = true <-> x <= y.
Proof. apply Qle_bool_iff. Qed.

Lemma Qltb_lt x y : Qltb x y = true <-> x < y.
Proof.
  unfold Qltb. rewrite negb_true_iff. split; intro H.
  - apply Qnot_le_lt. intro K. apply Qle_bool_iff in K. congruence.
  - destruct (Qle_bool y x) eqn:E; trivial.
    apply Qle_bool_iff in E. exfalso. apply (Qlt_not_le _ _ H E).
Qed.

Lemma Qleb_gt x y : Qleb x y = false <-> y < x.
Proof.
  rewrite <- Qltb_lt. unfold Qltb, Qleb. now rewrite negb_true_iff.
Qed.

Lemma Qltb_ge x y : Qltb x y = false <-> y <= x.
Proof.
  rewrite <- Qleb_le. unfold Qltb, Qleb. now rewrite negb_false_iff.
Qed.

#[local] Instance Qleb_proper : Proper (Qeq ==> Qeq ==> eq) Qleb.
Proof. intros a b E c d F. unfold Qleb. now rewrite E, F. Qed.

#[local] Instance Qltb_proper : Proper (Qeq ==> Qeq ==> eq) Qltb.
Proof. intros a b E c d F. unfold Qltb. now rewrite E, F. Qed.

(** Boolean comparisons in the hypotheses, as inequalities *)
Ltac reflect_comparisons :=
  repeat match goal with
         | H : Qltb _ _ = true |- _ => apply Qltb_lt in H
         | H : Qltb _ _ = false |- _ => apply Qltb_ge in H
         | H : Qleb _ _ = true |- _ => apply Qleb_le in H
         | H : Qleb _ _ = false |- _ => apply Qleb_gt in H
         end.

(** ** to_labels *)

Lemma to_labels_length probs t : length (to_labels probs t) = length probs.
Proof. unfold to_labels. apply length_map. Qed.

Lemma to_labels_nth probs t i p :
  nth_error probs i = Some p ->
  nth_error (to_labels probs t) i = Some (if Qleb t p then 1%Z else 0%Z).
Proof.
  intro H. unfold to_labels. now rewrite nth_error_map, H.
Qed.

(** C6. [to_labels] keeps the length of the sequence and sends the
    probability at each position to 1 when it is at least the threshold and
    to 0 when it is below; on the probabilities 0.1, 0.4, 0.6, 0.9 and the
    threshold 0.5 it gives 0, 0, 1, 1. *)
Theorem to_labels_spec :
  (forall (probs : list Q) (t : Q),
      length (to_labels probs t) = length probs /\
      forall i p, nth_error probs i = Some p ->
        (t <= p -> nth_error (to_labels probs t) i = Some 1%Z) /\
        (p < t -> nth_error (to_labels probs t) i = Some 0%Z)) /\
  to_labels [1 # 10; 4 # 10; 6 # 10; 9 # 10] (5 # 10) = [0; 0; 1; 1]%Z.
Proof.
  split; [| reflexivity].
  intros probs t. split; [apply to_labels_length |].
  intros i p Hi. rewrite (to_labels_nth _ t _ _ Hi). split; intro H.
  - apply Qleb_le in H. now rewrite H.
  - apply Qleb_gt in H. now rewrite H.
Qed.

(** ** temperature_scale *)

(** C3. [temperature_scale] returns a tensor of the shape of the logits, with
    as many entries, each the entry of the logits divided by the temperature
    (so that, for a temperature other than 0, multiplying back gives the
    logit).  The calibrator and the logits are arguments of a function: the
    call changes neither. *)
Theorem temperature_scale_spec (self : BinaryTemperatureScaling Model) (L : tensor) :
  shape (temperature_scale self L) = shape L /\
  numel (temperature_scale self L) = numel L /\
  forall i x, nth_error (data L) i = Some x ->
    nth_error (data (temperature_scale self L)) i = Some (x / temperature self) /\
    (~ temperature self == 0 ->
     exists y, nth_error (data (temperature_scale self L)) i = Some y /\
               y * temperature self == x).
Proof.
  unfold temperature_scale, tensor_div_scalar, numel. cbn [shape data].
  split; [reflexivity |]. split; [apply length_map |].
  intros i x Hi. rewrite nth_error_map, Hi. cbn. split; [reflexivity |].
  intro HT. eexists. split; [reflexivity |]. now field.
Qed.

(** ** The calibration error of an empty tensor *)

Lemma ece_bin_empty ece bin : ece_bin [] [] ece bin = ece.
Proof. destruct bin as [lo up]. reflexivity. Qed.

(** C9. On empty logits and labels every bin is skipped (the proportion of an
    empty tensor is NaN, which is not greater than 0) and [forward] returns
    the initial value 0 of the accumulator, whatever the number of bins. *)
Theorem forward_empty (n_bins : nat) :
  forward sigmoid (ECELoss_init n_bins) [] [] = Fin 0 /\
  mean (map float []) = NaN /\ s_gt0 NaN = false.
Proof.
  split; [| split; reflexivity].
  unfold forward. cbn [map combine].
  generalize (combine (bin_lowers (ECELoss_init n_bins))
                      (bin_uppers (ECELoss_init n_bins))).
  intro bins. induction bins as [| b bins IH]; [reflexivity |].
  cbn [fold_left]. now rewrite ece_bin_empty.
Qed.

(** ** Selecting the batches *)

Lemma int_small (x : Q) : Qabs x < 1 -> int x = 0%Z.
Proof.
  destruct x as [n d]. unfold int, Qabs, Qlt. cbn. intro H.
  apply Z.quot_small_iff; lia.
Qed.

Lemma islice_zero {A : Type} (it : list A) : islice it 0 = Ok [].
Proof. reflexivity. Qed.

(** A fraction that selects less than one batch, or an empty loader, leaves
    no batch. *)
Lemma zero_batches (loader : list (Inputs * list Q)) (val_fraction : Q) :
  Qabs (of_nat (length loader) * val_fraction) < 1 ->
  islice loader (batch_limit_of loader val_fraction) = Ok [].
Proof.
  intro H. unfold batch_limit_of. rewrite (int_small _ H). apply islice_zero.
Qed.

Lemma collect_logits_zero_batches self dm val_fraction :
  islice (val_dataloader dm true)
         (batch_limit_of (val_dataloader dm true) val_fraction) = Ok [] ->
  collect_logits model_forward val_dataloader self dm val_fraction = Raise CatEmptyList.
Proof. intro H. unfold collect_logits. now rewrite H. Qed.

Lemma collect_probabilities_zero_batches self dm val_fraction :
  islice (val_dataloader dm true)
         (batch_limit_of (val_dataloader dm true) val_fraction) = Ok [] ->
  collect_probabilities sigmoid calibrated_forward val_dataloader self dm val_fraction = Raise ConcatenateEmptyList.
Proof. intro H. unfold collect_probabilities. now rewrite H. Qed.

(** C5. When the selection leaves no batch, [calibrate] raises at [torch.cat]
    and [search_threshold] at [np.concatenate]: neither returns a number,
    and the calibrator keeps its temperature. *)
Theorem zero_batches_raise
    (self : BinaryTemperatureScaling Model) (searcher : ThresholdMoving Model)
    (max_metric : list Q -> list Z -> Q) (dm : DataModule) (val_fraction : Q) :
  islice (val_dataloader dm true)
         (batch_limit_of (val_dataloader dm true) val_fraction) = Ok [] ->
  returned (calibrate sigmoid bce_with_logits lbfgs_step model_forward val_dataloader
       self dm val_fraction) = Raise CatEmptyList /\
  final (calibrate sigmoid bce_with_logits lbfgs_step model_forward val_dataloader
       self dm val_fraction) = self /\
  returned (search_threshold sigmoid calibrated_forward val_dataloader
       searcher max_metric dm val_fraction)
    = Raise ConcatenateEmptyList.
Proof.
  intro H. unfold calibrate, search_threshold.
  rewrite (collect_logits_zero_batches _ _ _ H).
  rewrite (collect_probabilities_zero_batches _ _ _ H).
  repeat split.
Qed.

(** ** What calibrate changes *)


(** ** The arg-max and the grid of thresholds *)

Lemma first_max_snoc_keep pre x k :
  first_max pre k -> x <= nth k pre 0 -> first_max (pre ++ [x]) k.
Proof.
  intros (Hk & Hmax & Hfirst) Hx. unfold first_max.
  rewrite length_app. cbn [length]. repeat split.
  - lia.
  - intros j Hj. rewrite (app_nth1 pre [x] 0 Hk).
    destruct (Nat.lt_ge_cases j (length pre)) as [Hlt | Hge].
    + rewrite (app_nth1 pre [x] 0 Hlt). now apply Hmax.
    + assert (j = length pre) as -> by lia.
      rewrite app_nth2, Nat.sub_diag by lia. exact Hx.
  - intros j Hj. rewrite (app_nth1 pre [x] 0 Hk).
    rewrite app_nth1 by lia. now apply Hfirst.
Qed.

Lemma first_max_snoc_new pre x k :
  first_max pre k -> nth k pre 0 < x -> first_max (pre ++ [x]) (length pre).
Proof.
  intros (Hk & Hmax & Hfirst) Hx. unfold first_max.
  rewrite length_app. cbn [length].
  assert (Hlast : nth (length pre) (pre ++ [x]) 0 = x)
    by (rewrite app_nth2, Nat.sub_diag by lia; reflexivity).
  rewrite Hlast. repeat split.
  - lia.
  - intros j Hj.
    destruct (Nat.lt_ge_cases j (length pre)) as [Hlt | Hge].
    + rewrite (app_nth1 pre [x] 0 Hlt).
      apply Qle_trans with (nth k pre 0); [now apply Hmax | now apply Qlt_le_weak].
    + assert (j = length pre) as -> by lia. rewrite Hlast. apply Qle_refl.
  - intros j Hj. rewrite (app_nth1 pre [x] 0 Hj).
    apply Qle_lt_trans with (nth k pre 0); [now apply Hmax | exact Hx].
Qed.

Lemma argmax_from_first_max xs : forall pre best_i,
  first_max pre best_i ->
  first_max (pre ++ xs)
            (argmax_from best_i (nth best_i pre 0) (length pre) xs).
Proof.
  induction xs as [| x xs IH]; intros pre best_i H.
  - now rewrite app_nil_r.
  - cbn [argmax_from].
    replace (pre ++ x :: xs) with ((pre ++ [x]) ++ xs)
      by (now rewrite <- app_assoc).
    assert (Hlen : length (pre ++ [x]) = S (length pre))
      by (rewrite length_app; cbn; lia).
    destruct (Qltb (nth best_i pre 0) x) eqn:E.
    + apply Qltb_lt in E.
      pose proof (IH _ _ (first_max_snoc_new pre x best_i H E)) as H'.
      rewrite Hlen, app_nth2, Nat.sub_diag in H' by lia. exact H'.
    + apply Qltb_ge in E.
      pose proof (IH _ _ (first_max_snoc_keep pre x best_i H E)) as H'.
      rewrite Hlen, app_nth1 in H' by apply H. exact H'.
Qed.

Lemma np_argmax_first_max x xs :
  exists k, np_argmax (x :: xs) = Ok k /\ first_max (x :: xs) k.
Proof.
  eexists. split; [reflexivity |].
  apply (argmax_from_first_max xs [x] 0%nat).
  unfold first_max. cbn [length nth]. repeat split.
  - lia.
  - intros j Hj. assert (j = 0%nat) as -> by lia. apply Qle_refl.
  - intros j Hj. lia.
Qed.

Lemma thresholds_length : length thresholds = 1000%nat.
Proof. vm_compute. reflexivity. Qed.

Lemma thresholds_nth k :
  (k < 1000)%nat -> nth k thresholds 0 == of_nat k / 1000.
Proof.
  intro Hk. unfold thresholds, np_arange.
  replace (Z.to_nat (Qceiling ((1 - 0) / (1 # 1000)))) with 1000%nat
    by (vm_compute; reflexivity).
  set (f := fun i : nat => 0 + of_nat i * (1 # 1000)).
  rewrite (nth_indep _ 0 (f 0%nat))
    by (rewrite length_map, length_seq; exact Hk).
  rewrite map_nth, seq_nth by exact Hk. unfold f. cbn [Nat.add]. field.
Qed.

Lemma np_argmax_nonempty l :
  l <> [] -> exists k, np_argmax l = Ok k /\ first_max l k.
Proof.
  destruct l as [| x xs]; [congruence | intros _; apply np_argmax_first_max].
Qed.

Lemma threshold_scores_length max_metric logits labels :
  length (threshold_scores max_metric logits labels) = 1000%nat.
Proof. unfold threshold_scores. now rewrite length_map, thresholds_length. Qed.

Lemma threshold_scores_nth max_metric logits labels j :
  (j < 1000)%nat ->
  nth j (threshold_scores max_metric logits labels) 0
  = max_metric labels (to_labels logits (nth j thresholds 0)).
Proof.
  intro Hj. unfold threshold_scores.
  set (f := fun t => max_metric labels (to_labels logits t)).
  rewrite (nth_indep _ 0 (f 0))
    by (now rewrite length_map, thresholds_length).
  now rewrite map_nth.
Qed.

Lemma collect_probabilities_batches searcher dm val_fraction b bs :
  islice (val_dataloader dm true)
         (batch_limit_of (val_dataloader dm true) val_fraction) = Ok (b :: bs) ->
  collect_probabilities sigmoid calibrated_forward val_dataloader searcher dm val_fraction
  = Ok (concat (map (fun b => map sigmoid
                                 (calibrated_forward (tm_model searcher) (fst b)))
                    (b :: bs)),
        concat (map snd (b :: bs))).
Proof. intro H. unfold collect_probabilities. rewrite H. reflexivity. Qed.

(** C4. When the selection holds at least one batch, [search_threshold]
    returns the entry [k] of the grid, for a [k] below 1000; this entry is
    [k/1000]; its score is the largest on the grid; every grid entry with an
    equal score comes at or after it; and when all the scores are equal
    (a constant metric) it is the first entry, 0. *)
Theorem search_threshold_spec
    (searcher : ThresholdMoving Model) (max_metric : list Q -> list Z -> Q)
    (dm : DataModule) (val_fraction : Q) (b : Inputs * list Q)
    (bs : list (Inputs * list Q)) :
  islice (val_dataloader dm true)
         (batch_limit_of (val_dataloader dm true) val_fraction) = Ok (b :: bs) ->
  let probabilities :=
    concat (map (fun b => map sigmoid
                            (calibrated_forward (tm_model searcher) (fst b)))
                (b :: bs)) in
  let labels := concat (map snd (b :: bs)) in
  let score := fun j =>
    max_metric labels (to_labels probabilities (nth j thresholds 0)) in
  exists k : nat,
    (k < 1000)%nat /\
    returned (search_threshold sigmoid calibrated_forward val_dataloader
       searcher max_metric dm val_fraction)
      = Ok (nth k thresholds 0) /\
    In (nth k thresholds 0) thresholds /\
    length thresholds = 1000%nat /\
    nth k thresholds 0 == of_nat k / 1000 /\
    (forall j, (j < 1000)%nat -> score j <= score k) /\
    (forall j, (j < 1000)%nat -> score j == score k -> (k <= j)%nat) /\
    ((forall j, (j < 1000)%nat -> score j == score 0%nat) ->
     k = 0%nat /\ nth k thresholds 0 == 0).
Proof.
  intros H probabilities labels score.
  unfold search_threshold.
  rewrite (collect_probabilities_batches _ _ _ _ _ H).
  fold probabilities labels.
  destruct (np_argmax_nonempty (threshold_scores max_metric probabilities labels))
    as (k & Hk & Hlt & Hmax & Hfirst).
  { intro E. apply (f_equal (@length Q)) in E.
    rewrite threshold_scores_length in E. discriminate. }
  rewrite threshold_scores_length in Hlt, Hmax.
  assert (Hscore : forall j, (j < 1000)%nat ->
            nth j (threshold_scores max_metric probabilities labels) 0 = score j)
    by (intros j Hj; now apply threshold_scores_nth).
  assert (Hties : forall j, (j < 1000)%nat -> score j == score k -> (k <= j)%nat).
  { intros j Hj E. destruct (Nat.lt_ge_cases j k) as [Hjk | Hjk]; [| exact Hjk].
    exfalso. specialize (Hfirst j Hjk).
    rewrite (Hscore j Hj), (Hscore k Hlt), E in Hfirst.
    exact (Qlt_irrefl _ Hfirst). }
  assert (Hconst : (forall j, (j < 1000)%nat -> score j == score 0%nat) ->
                   k = 0%nat).
  { intro Hc. assert (k <= 0)%nat as Hk0; [| lia].
    apply Hties; [lia |]. symmetry. now apply Hc. }
  exists k. rewrite Hk. cbn [returned].
  split; [exact Hlt |].
  split; [reflexivity |].
  split; [apply nth_In; now rewrite thresholds_length |].
  split; [exact thresholds_length |].
  split; [now apply thresholds_nth |].
  split; [| split; [exact Hties |]].
  - intros j Hj. rewrite <- (Hscore j Hj), <- (Hscore k Hlt). now apply Hmax.
  - intro Hc. split; [now apply Hconst |].
    rewrite (Hconst Hc), thresholds_nth by lia. reflexivity.
Qed.

(** ** The calibration error: the loop against the reference *)

Lemma of_nat_S n : of_nat (S n) == of_nat n + 1.
Proof.
  unfold of_nat. rewrite Nat2Z.inj_succ. unfold Z.succ.
  rewrite inject_Z_plus. reflexivity.
Qed.

Lemma of_nat_nonneg n : 0 <= of_nat n.
Proof.
  unfold of_nat. replace 0 with (inject_Z 0) by reflexivity.
  rewrite <- Zle_Qle. lia.
Qed.

Lemma of_nat_pos n : (0 < n)%nat -> 0 < of_nat n.
Proof.
  intro H. unfold of_nat. replace 0 with (inject_Z 0) by reflexivity.
  rewrite <- Zlt_Qlt. lia.
Qed.

Lemma of_nat_le n m : (n <= m)%nat -> of_nat n <= of_nat m.
Proof. intro H. unfold of_nat. rewrite <- Zle_Qle. lia. Qed.

Lemma of_nat_plus n m : of_nat (n + m) == of_nat n + of_nat m.
Proof.
  unfold of_nat. rewrite Nat2Z.inj_add, inject_Z_plus. reflexivity.
Qed.

(** The bins of [ECELoss_init]: consecutive boundaries, paired. *)
Lemma consecutive_pairs (f : nat -> Q) n : forall s,
  combine (removelast (map f (seq s (S n)))) (tl (map f (seq s (S n))))
  = map (fun b => (f b, f (S b))) (seq s n).
Proof.
  induction n as [| n IH]; intro s; [reflexivity |].
  specialize (IH (S s)).
  change (seq s (S (S n))) with (s :: seq (S s) (S n)).
  cbn [map tl]. cbn [seq map] in IH |- *. cbn [seq map tl] in IH.
  cbn [removelast combine]. now rewrite <- IH.
Qed.

Lemma boundary_eq n_bins i :
  (0 < n_bins)%nat -> boundary n_bins i == of_nat i / of_nat n_bins.
Proof.
  intro H. unfold boundary. rewrite of_nat_S.
  pose proof (of_nat_pos n_bins H). field. intro E. rewrite E in H0.
  exact (Qlt_irrefl _ H0).
Qed.

Lemma ECELoss_init_bins n_bins :
  combine (bin_lowers (ECELoss_init n_bins)) (bin_uppers (ECELoss_init n_bins))
  = map (fun b => (boundary n_bins b, boundary n_bins (S b))) (seq 0 n_bins).
Proof.
  unfold ECELoss_init, torch_linspace. cbn [bin_lowers bin_uppers].
  rewrite Nat.add_1_r. apply (consecutive_pairs (boundary n_bins)).
Qed.

Lemma masked_map_filter {A B : Type} (f : A -> B) (p : A -> bool) (xs : list A) :
  masked (map f xs) (map p xs) = map f (filter p xs).
Proof.
  induction xs as [| x xs IH]; [reflexivity |].
  cbn [map masked filter]. destruct (p x); cbn [map]; now rewrite IH.
Qed.

Lemma sum_float_count {A : Type} (p : A -> bool) (xs : list A) :
  sum (map float (map p xs)) == of_nat (length (filter p xs)).
Proof.
  induction xs as [| x xs IH]; [reflexivity |].
  cbn [map filter sum fold_right]. fold (sum (map float (map p xs))).
  rewrite IH. destruct (p x); cbn [float length].
  - rewrite of_nat_S. ring.
  - ring.
Qed.

Lemma mean_nonempty xs :
  xs <> [] -> mean xs = Fin (sum xs / of_nat (length xs)).
Proof. destruct xs; [congruence | reflexivity]. Qed.

Lemma combine_fst (cs ys : list Q) :
  length cs = length ys -> map fst (combine cs ys) = cs.
Proof.
  revert ys. induction cs as [| c cs IH]; intros [| y ys] H;
    try reflexivity; try discriminate.
  cbn. f_equal. apply IH. now injection H.
Qed.

Lemma accuracies_correct (cs ys : list Q) :
  map (fun py : bool * Q => Qeq_bool (float (fst py)) (snd py))
      (combine (map (fun c => Qltb (1 # 2) c) cs) ys)
  = map correct (combine cs ys).
Proof.
  revert ys. induction cs as [| c cs IH]; intros [| y ys]; try reflexivity.
  cbn [map combine]. now rewrite IH.
Qed.

(** One turn of the loop adds the contribution of the bin. *)
Lemma ece_bin_samples (samples : list (Q * Q)) (e lower upper : Q) :
  exists e',
    ece_bin (map fst samples) (map correct samples) (Fin e) (lower, upper) = Fin e' /\
    e' == e + interval_contribution lower upper samples.
Proof.
  unfold ece_bin, interval_contribution.
  rewrite (map_map fst (fun c => Qltb lower c && Qleb c upper)).
  change (map (fun x => Qltb lower (fst x) && Qleb (fst x) upper) samples)
    with (map (fun s : Q * Q => in_interval lower upper (fst s)) samples).
  set (p := fun s : Q * Q => in_interval lower upper (fst s)).
  rewrite !masked_map_filter.
  destruct samples as [| s0 ss] eqn:Hs.
  { cbn. exists e. split; [reflexivity | ring]. }
  rewrite <- Hs.
  assert (HN : 0 < of_nat (length samples))
    by (apply of_nat_pos; rewrite Hs; cbn; lia).
  rewrite (mean_nonempty (map float (map p samples)))
    by (rewrite Hs; discriminate).
  cbn [s_gt0]. rewrite !length_map.
  destruct (filter p samples) as [| m ms] eqn:Hm.
  - assert (E : Qltb 0 (sum (map float (map p samples)) / of_nat (length samples))
                = false).
    { apply Qltb_ge. rewrite sum_float_count, Hm. cbn [length].
      unfold Qdiv. rewrite Qmult_0_l. apply Qle_refl. }
    rewrite E. exists e. split; [reflexivity | ring].
  - assert (E : Qltb 0 (sum (map float (map p samples)) / of_nat (length samples))
                = true).
    { apply Qltb_lt. rewrite sum_float_count, Hm.
      apply Qlt_shift_div_l; [exact HN |]. rewrite Qmult_0_l.
      apply of_nat_pos. cbn. lia. }
    rewrite E.
    rewrite (mean_nonempty (map float (map correct (m :: ms)))) by discriminate.
    rewrite (mean_nonempty (map fst (m :: ms))) by discriminate.
    cbn [s_sub s_abs s_mul s_add]. eexists. split; [reflexivity |].
    rewrite !length_map, !sum_float_count, Hm. reflexivity.
Qed.

Lemma fold_ece_bin_samples (samples : list (Q * Q)) (bins : list (Q * Q)) :
  forall e, exists e',
    fold_left (ece_bin (map fst samples) (map correct samples)) bins (Fin e) = Fin e' /\
    e' == e + sum (map (fun bin => interval_contribution (fst bin) (snd bin) samples)
                       bins).
Proof.
  induction bins as [| [lower upper] bins IH]; intro e.
  - exists e. split; [reflexivity | cbn; ring].
  - cbn [fold_left].
    destruct (ece_bin_samples samples e lower upper) as (e1 & -> & H1).
    destruct (IH e1) as (e' & -> & H').
    exists e'. split; [reflexivity |].
    cbn [map sum fold_right fst snd].
    fold (sum (map (fun bin => interval_contribution (fst bin) (snd bin) samples)
                   bins)).
    rewrite H', H1. ring.
Qed.

Lemma sum_map_ext {A : Type} (f g : A -> Q) (l : list A) :
  (forall x, In x l -> f x == g x) -> sum (map f l) == sum (map g l).
Proof.
  induction l as [| x l IH]; intro H; [reflexivity |].
  cbn [map sum fold_right]. fold (sum (map f l)) (sum (map g l)).
  rewrite (H x (or_introl eq_refl)), IH; [reflexivity |].
  intros y Hy. apply H. now right.
Qed.

Lemma in_interval_proper lower lower' upper upper' c :
  lower == lower' -> upper == upper' ->
  in_interval lower upper c = in_interval lower' upper' c.
Proof. intros E F. unfold in_interval. now rewrite E, F. Qed.

Lemma interval_contribution_proper lower lower' upper upper' samples :
  lower == lower' -> upper == upper' ->
  interval_contribution lower upper samples
  = interval_contribution lower' upper' samples.
Proof.
  intros E F. unfold interval_contribution.
  rewrite (filter_ext (fun s : Q * Q => in_interval lower upper (fst s))
                      (fun s : Q * Q => in_interval lower' upper' (fst s)));
    [reflexivity |].
  intro s. now apply in_interval_proper.
Qed.

Lemma boundary_contribution n_bins samples b :
  In b (seq 0 n_bins) ->
  interval_contribution (boundary n_bins b) (boundary n_bins (S b)) samples
  = bin_contribution n_bins samples b.
Proof.
  intro H. apply in_seq in H. unfold bin_contribution.
  apply interval_contribution_proper; apply boundary_eq; lia.
Qed.

(** The loop of [forward] computes the reference sum over the samples. *)
Lemma forward_samples (n_bins : nat) (logits labels : list Q) :
  length logits = length labels ->
  exists v,
    forward sigmoid (ECELoss_init n_bins) logits labels = Fin v /\
    v == ece_samples n_bins (combine (map sigmoid logits) labels).
Proof.
  intro Hlen. unfold forward.
  set (samples := combine (map sigmoid logits) labels).
  rewrite accuracies_correct. fold samples.
  assert (Hc : map sigmoid logits = map fst samples)
    by (symmetry; apply combine_fst; now rewrite length_map).
  rewrite Hc.
  rewrite ECELoss_init_bins.
  destruct (fold_ece_bin_samples samples
              (map (fun b => (boundary n_bins b, boundary n_bins (S b)))
                   (seq 0 n_bins)) 0) as (v & Hv & E).
  exists v. split; [exact Hv |].
  rewrite E, map_map. cbn [fst snd]. rewrite Qplus_0_l.
  unfold ece_samples. apply sum_map_ext.
  intros b Hb. now rewrite boundary_contribution.
Qed.



(** ** The calibration error lies in [0,1] *)

Lemma div_nonneg a b : 0 <= a -> 0 <= b -> 0 <= a / b.
Proof.
  intros Ha Hb. unfold Qdiv. apply Qmult_le_0_compat; [exact Ha |].
  now apply Qinv_le_0_compat.
Qed.

Lemma div_le_compat a b d : a <= b -> 0 <= d -> a / d <= b / d.
Proof.
  intros Hab Hd. unfold Qdiv. apply Qmult_le_compat_r; [exact Hab |].
  now apply Qinv_le_0_compat.
Qed.

Lemma div_le_1 a b : a <= b -> 0 <= b -> a / b <= 1.
Proof.
  intros Hab Hb. destruct (Qeq_dec b 0) as [E | N].
  - rewrite E. unfold Qdiv, Qinv. cbn. rewrite Qmult_0_r. discriminate.
  - apply Qle_shift_div_r; [| now rewrite Qmult_1_l].
    destruct (Qle_lt_or_eq _ _ Hb) as [Hlt | Heq]; [exact Hlt |].
    exfalso. apply N. now symmetry.
Qed.

Lemma sum_bounds (l : list Q) (a b : Q) :
  (forall x, In x l -> a <= x /\ x <= b) ->
  a * of_nat (length l) <= sum l /\ sum l <= b * of_nat (length l).
Proof.
  induction l as [| x l IH]; intro H.
  - cbn. split; rewrite Qmult_0_r; apply Qle_refl.
  - destruct (H x (or_introl eq_refl)) as [Hax Hxb].
    destruct IH as [IHa IHb]; [intros y Hy; apply H; now right |].
    cbn [length sum fold_right]. fold (sum l). rewrite of_nat_S. split; lra.
Qed.

Lemma filter_length_le {A : Type} (p : A -> bool) (l : list A) :
  (length (filter p l) <= length l)%nat.
Proof.
  induction l as [| x l IH]; [apply le_n |].
  cbn [filter]. destruct (p x); cbn [length]; lia.
Qed.

Lemma interval_contribution_nonneg lower upper samples :
  0 <= interval_contribution lower upper samples.
Proof.
  unfold interval_contribution.
  destruct (filter _ samples) as [| m ms]; [apply Qle_refl |].
  apply Qmult_le_0_compat; [apply Qabs_nonneg |].
  apply div_nonneg; apply of_nat_nonneg.
Qed.

(** The gap of a bin inside [0,1] is at most 1, so the bin contributes at
    most its share of the population. *)
Lemma interval_contribution_le lower upper samples :
  0 <= lower -> upper <= 1 ->
  interval_contribution lower upper samples
  <= of_nat (length (filter (fun s => in_interval lower upper (fst s)) samples))
     / of_nat (length samples).
Proof.
  intros Hlo Hup. unfold interval_contribution.
  set (p := fun s : Q * Q => in_interval lower upper (fst s)).
  assert (Hin : forall s, In s (filter p samples) -> 0 <= fst s /\ fst s <= 1).
  { intros s Hs. apply filter_In in Hs. destruct Hs as [_ Hs].
    unfold p, in_interval in Hs. apply andb_true_iff in Hs.
    destruct Hs as [H1 H2]. apply Qltb_lt in H1. apply Qleb_le in H2.
    split; lra. }
  destruct (filter p samples) as [| m ms] eqn:Hm.
  { apply div_nonneg; apply of_nat_nonneg. }
  set (members := m :: ms) in *.
  set (pop := of_nat (length members)).
  assert (Hpop : 0 < pop) by (apply of_nat_pos; cbn; lia).
  assert (Hshare : 0 <= pop / of_nat (length samples))
    by (apply div_nonneg; [lra | apply of_nat_nonneg]).
  assert (Havg : 0 <= sum (map fst members) / pop /\
                 sum (map fst members) / pop <= 1).
  { destruct (sum_bounds (map fst members) 0 1) as [Ha Hb].
    - intros x Hx. apply in_map_iff in Hx. destruct Hx as (s & <- & Hs).
      now apply Hin.
    - rewrite length_map in Ha, Hb. fold pop in Ha, Hb. split.
      + apply div_nonneg; lra.
      + apply div_le_1; lra. }
  assert (Hacc : 0 <= of_nat (length (filter correct members)) / pop /\
                 of_nat (length (filter correct members)) / pop <= 1).
  { split.
    - apply div_nonneg; [apply of_nat_nonneg | lra].
    - apply div_le_1; [| lra]. apply of_nat_le, filter_length_le. }
  assert (Hgap : Qabs (sum (map fst members) / pop
                       - of_nat (length (filter correct members)) / pop) <= 1).
  { apply Qabs_Qle_condition. split; lra. }
  setoid_replace (pop / of_nat (length samples))
    with (1 * (pop / of_nat (length samples))) at 2 by ring.
  apply Qmult_le_compat_r; assumption.
Qed.

Lemma list_sum_cons (x : nat) (l : list nat) :
  list_sum (x :: l) = (x + list_sum l)%nat.
Proof. reflexivity. Qed.

(** The bins are disjoint: a confidence is in at most one of them. *)
Lemma bins_of_confidence (n_bins : nat) (c : Q) (m : nat) : forall s,
  (list_sum (map (fun b => Nat.b2n (in_interval (of_nat b / of_nat n_bins)
                                             (of_nat (S b) / of_nat n_bins) c))
                 (seq s m))
   <= Nat.b2n (Qltb (of_nat s / of_nat n_bins) c))%nat.
Proof.
  induction m as [| m IH]; intro s; [cbn; lia |].
  cbn [seq map]. rewrite list_sum_cons. specialize (IH (S s)).
  assert (Hstep : of_nat s / of_nat n_bins <= of_nat (S s) / of_nat n_bins).
  { apply div_le_compat; [| apply of_nat_nonneg]. apply of_nat_le. lia. }
  unfold in_interval at 1.
  destruct (Qltb (of_nat s / of_nat n_bins) c) eqn:E1;
    destruct (Qleb c (of_nat (S s) / of_nat n_bins)) eqn:E2;
    destruct (Qltb (of_nat (S s) / of_nat n_bins) c) eqn:E3;
    cbn [andb Nat.b2n] in *; try lia; exfalso; reflect_comparisons; lra.
Qed.

Lemma list_sum_map_add {A : Type} (f g : A -> nat) (l : list A) :
  list_sum (map (fun x => f x + g x)%nat l)
  = (list_sum (map f l) + list_sum (map g l))%nat.
Proof.
  induction l as [| x l IH]; [reflexivity |].
  cbn [map]. rewrite !list_sum_cons. lia.
Qed.

Lemma bins_population (n_bins : nat) (samples : list (Q * Q)) :
  (list_sum
     (map (fun b => length (filter (fun s : Q * Q =>
                                      in_interval (of_nat b / of_nat n_bins)
                                                  (of_nat (S b) / of_nat n_bins)
                                                  (fst s))
                                   samples))
          (seq 0 n_bins))
   <= length samples)%nat.
Proof.
  induction samples as [| s ss IH].
  - cbn [filter length].
    induction (seq 0 n_bins) as [| b l IHl]; [apply le_n |].
    cbn [map]. rewrite list_sum_cons. lia.
  - rewrite (map_ext_in _
      (fun b => Nat.b2n (in_interval (of_nat b / of_nat n_bins)
                                     (of_nat (S b) / of_nat n_bins) (fst s))
                + length (filter (fun s : Q * Q =>
                                    in_interval (of_nat b / of_nat n_bins)
                                                (of_nat (S b) / of_nat n_bins)
                                                (fst s)) ss))%nat).
    + rewrite list_sum_map_add.
      pose proof (bins_of_confidence n_bins (fst s) n_bins 0%nat) as H.
      destruct (Qltb (of_nat 0 / of_nat n_bins) (fst s));
        cbn [Nat.b2n length] in *; lia.
    + intros b _. cbn [filter].
      destruct (in_interval _ _ (fst s)); reflexivity.
Qed.

Lemma sum_map_le {A : Type} (f g : A -> Q) (l : list A) :
  (forall x, In x l -> f x <= g x) -> sum (map f l) <= sum (map g l).
Proof.
  induction l as [| x l IH]; intro H; [apply Qle_refl |].
  cbn [map sum fold_right]. fold (sum (map f l)) (sum (map g l)).
  apply Qplus_le_compat; [apply H; now left |].
  apply IH. intros y Hy. apply H. now right.
Qed.

Lemma sum_map_nonneg {A : Type} (f : A -> Q) (l : list A) :
  (forall x, In x l -> 0 <= f x) -> 0 <= sum (map f l).
Proof.
  induction l as [| x l IH]; intro H; [apply Qle_refl |].
  cbn [map sum fold_right]. fold (sum (map f l)).
  assert (0 <= f x) by (apply H; now left).
  assert (0 <= sum (map f l)) by (apply IH; intros y Hy; apply H; now right).
  lra.
Qed.

Lemma sum_map_share (h : nat -> nat) (d : Q) (l : list nat) :
  sum (map (fun b => of_nat (h b) / d) l) == of_nat (list_sum (map h l)) / d.
Proof.
  induction l as [| x l IH].
  - cbn. unfold Qdiv. now rewrite Qmult_0_l.
  - cbn [map sum fold_right]. rewrite list_sum_cons.
    fold (sum (map (fun b => of_nat (h b) / d) l)).
    rewrite IH, of_nat_plus. unfold Qdiv. ring.
Qed.

Lemma ece_samples_bounds (n_bins : nat) (samples : list (Q * Q)) :
  0 <= ece_samples n_bins samples /\ ece_samples n_bins samples <= 1.
Proof.
  unfold ece_samples. split.
  - apply sum_map_nonneg. intros b _. apply interval_contribution_nonneg.
  - set (count := fun b => length (filter (fun s : Q * Q =>
                              in_interval (of_nat b / of_nat n_bins)
                                          (of_nat (S b) / of_nat n_bins) (fst s))
                              samples)).
    apply Qle_trans
      with (sum (map (fun b => of_nat (count b) / of_nat (length samples))
                     (seq 0 n_bins))).
    + apply sum_map_le. intros b Hb. apply in_seq in Hb.
      unfold bin_contribution, count. apply interval_contribution_le.
      * apply div_nonneg; apply of_nat_nonneg.
      * apply div_le_1; [apply of_nat_le; lia | apply of_nat_nonneg].
    + rewrite sum_map_share. apply div_le_1; [| apply of_nat_nonneg].
      apply of_nat_le. apply bins_population.
Qed.

(** C7. For logits and labels of one length, [forward] returns a finite
    number between 0 and 1. *)
Theorem forward_in_unit_interval (n_bins : nat) (logits labels : list Q) :
  length logits = length labels ->
  exists v,
    forward sigmoid (ECELoss_init n_bins) logits labels = Fin v /\ 0 <= v /\ v <= 1.
Proof.
  intro Hlen. destruct (forward_samples n_bins logits labels Hlen) as (v & Hv & E).
  exists v. split; [exact Hv |]. rewrite E. apply ece_samples_bounds.
Qed.

(** ** The calibration error does not depend on the order of the samples *)







(** * Further properties of the code *)

(** ** The bins of _ECELoss *)

Lemma removelast_map_seq (f : nat -> Q) (s n : nat) :
  removelast (map f (seq s (S n))) = map f (seq s n).
Proof.
  rewrite seq_S, map_app. cbn [map]. apply removelast_last.
Qed.

Lemma bin_lowers_init n_bins :
  bin_lowers (ECELoss_init n_bins) = map (boundary n_bins) (seq 0 n_bins).
Proof.
  unfold ECELoss_init, torch_linspace. cbn [bin_lowers].
  rewrite Nat.add_1_r. apply (removelast_map_seq (boundary n_bins)).
Qed.

Lemma bin_uppers_init n_bins :
  bin_uppers (ECELoss_init n_bins) = map (boundary n_bins) (seq 1 n_bins).
Proof.
  unfold ECELoss_init, torch_linspace. cbn [bin_uppers].
  rewrite Nat.add_1_r. reflexivity.
Qed.

Lemma bin_lowers_nth n_bins b :
  (b < n_bins)%nat ->
  nth b (bin_lowers (ECELoss_init n_bins)) 0 = boundary n_bins b.
Proof.
  intro H. rewrite bin_lowers_init.
  rewrite (nth_indep _ 0 (boundary n_bins 0))
    by (now rewrite length_map, length_seq).
  now rewrite map_nth, seq_nth.
Qed.

Lemma bin_uppers_nth n_bins b :
  (b < n_bins)%nat ->
  nth b (bin_uppers (ECELoss_init n_bins)) 0 = boundary n_bins (S b).
Proof.
  intro H. rewrite bin_uppers_init.
  rewrite (nth_indep _ 0 (boundary n_bins 0))
    by (now rewrite length_map, length_seq).
  now rewrite map_nth, seq_nth.
Qed.

(** The membership test of bin [b], as [forward] evaluates it *)
Lemma bin_test_interval n_bins b c :
  (b < n_bins)%nat ->
  Qltb (nth b (bin_lowers (ECELoss_init n_bins)) 0) c
  && Qleb c (nth b (bin_uppers (ECELoss_init n_bins)) 0)
  = in_interval (of_nat b / of_nat n_bins) (of_nat (S b) / of_nat n_bins) c.
Proof.
  intro Hb. rewrite (bin_lowers_nth _ _ Hb), (bin_uppers_nth _ _ Hb).
  change (in_interval (boundary n_bins b) (boundary n_bins (S b)) c
          = in_interval (of_nat b / of_nat n_bins)
                        (of_nat (S b) / of_nat n_bins) c).
  apply in_interval_proper; apply boundary_eq; lia.
Qed.

Lemma of_nat_div_le n a b :
  (a <= b)%nat -> of_nat a / of_nat n <= of_nat b / of_nat n.
Proof.
  intro H. apply div_le_compat; [now apply of_nat_le | apply of_nat_nonneg].
Qed.

Lemma bin_exists n_bins c m : forall s,
  of_nat s / of_nat n_bins < c -> c <= of_nat (s + m) / of_nat n_bins ->
  exists b, (s <= b < s + m)%nat /\
    in_interval (of_nat b / of_nat n_bins) (of_nat (S b) / of_nat n_bins) c = true.
Proof.
  induction m as [| m IH]; intros s Hlo Hup.
  - rewrite Nat.add_0_r in Hup. lra.
  - destruct (Qleb c (of_nat (S s) / of_nat n_bins)) eqn:E.
    + exists s. split; [lia |]. unfold in_interval. rewrite E.
      apply Qltb_lt in Hlo. now rewrite Hlo.
    + apply Qleb_gt in E. destruct (IH (S s) E) as (b & Hb & Hin).
      * now rewrite Nat.add_succ_r in Hup.
      * exists b. split; [lia | exact Hin].
Qed.

Lemma bin_unique n_bins c b b' :
  in_interval (of_nat b / of_nat n_bins) (of_nat (S b) / of_nat n_bins) c = true ->
  in_interval (of_nat b' / of_nat n_bins) (of_nat (S b') / of_nat n_bins) c = true ->
  b = b'.
Proof.
  unfold in_interval. intros H H'.
  apply andb_true_iff in H. apply andb_true_iff in H'.
  destruct H as [H1 H2]. destruct H' as [H1' H2']. reflect_comparisons.
  destruct (lt_eq_lt_dec b b') as [[Hlt | Heq] | Hgt]; [| exact Heq |]; exfalso.
  - pose proof (of_nat_div_le n_bins (S b) b' Hlt). lra.
  - pose proof (of_nat_div_le n_bins (S b') b Hgt). lra.
Qed.

(** X2. The bins partition the interval (0,1]: with at least one bin, a
    confidence [c] with [0 < c <= 1] passes the membership test of exactly
    one bin, and a confidence that is at most 0 or above 1 passes none. *)
Theorem bins_partition (n_bins : nat) (c : Q) :
  (0 < n_bins)%nat ->
  let test := fun b =>
    Qltb (nth b (bin_lowers (ECELoss_init n_bins)) 0) c
    && Qleb c (nth b (bin_uppers (ECELoss_init n_bins)) 0) in
  (0 < c -> c <= 1 ->
   exists b, (b < n_bins)%nat /\ test b = true /\
             forall b', (b' < n_bins)%nat -> test b' = true -> b' = b) /\
  (c <= 0 \/ 1 < c -> forall b, (b < n_bins)%nat -> test b = false).
Proof.
  intros Hn test.
  assert (Hpos : 0 < of_nat n_bins) by now apply of_nat_pos.
  assert (Hone : of_nat n_bins / of_nat n_bins == 1)
    by (field; intro E; rewrite E in Hpos; exact (Qlt_irrefl _ Hpos)).
  assert (Hzero : of_nat 0 / of_nat n_bins == 0)
    by (change (of_nat 0) with 0; unfold Qdiv; apply Qmult_0_l).
  split.
  - intros H0 H1.
    destruct (bin_exists n_bins c n_bins 0%nat) as (b & Hb & Hin).
    + now rewrite Hzero.
    + cbn [Nat.add]. now rewrite Hone.
    + exists b. split; [lia |]. unfold test. split.
      * rewrite bin_test_interval by lia. exact Hin.
      * intros b' Hb' Hin'. rewrite bin_test_interval in Hin' by lia.
        exact (bin_unique n_bins c b' b Hin' Hin).
  - intros Hout b Hb. unfold test. rewrite bin_test_interval by exact Hb.
    unfold in_interval. apply andb_false_iff.
    destruct Hout as [Hle | Hgt].
    + left. apply Qltb_ge.
      pose proof (of_nat_div_le n_bins 0 b (Nat.le_0_l b)). lra.
    + right. apply Qleb_gt.
      pose proof (of_nat_div_le n_bins (S b) n_bins Hb). lra.
Qed.

(** ** When the calibration error is zero *)






(** ** The calibration error when every prediction is right, or wrong *)












(** ** Temperature scaling and the predicted classes *)



(** ** The batches that are selected *)




(** ** The outcome of calibrate *)

(** X13. Once logits and labels are collected, [calibrate] raises when their
    sizes differ, changing and logging nothing.  When the sizes agree it
    returns the temperature [t] left by the optimizer (learning rate 0.01,
    at most 50 iterations, started at the current temperature, on the loss
    of the scaled logits), which becomes the temperature of the calibrator,
    and logs two lines: the loss and the
    calibration error of the logits, then those of the logits scaled by [t];
    both calibration errors are finite numbers in [0,1]. *)
Theorem calibrate_outcome
    (self : BinaryTemperatureScaling Model) (dm : DataModule) (val_fraction : Q)
    (logits labels : tensor) :
  collect_logits model_forward val_dataloader self dm val_fraction
  = Ok (logits, labels) ->
  (numel logits <> numel labels ->
   calibrate sigmoid bce_with_logits lbfgs_step model_forward val_dataloader
             self dm val_fraction
   = mkRun (Raise TargetSizeMismatch) self []) /\
  (numel logits = numel labels ->
   exists t ece_before ece_after,
     t = nth 0 (lbfgs_step (1 # 100) 50
                  (fun params =>
                     bce_with_logits
                       (data (temperature_scale
                                (set_temperature self
                                   (nth 0 params (temperature self)))
                                logits))
                       (data labels))
                  [temperature self])
             (temperature self) /\
     calibrate sigmoid bce_with_logits lbfgs_step model_forward val_dataloader
               self dm val_fraction
     = mkRun (Ok t) (set_temperature self t)
         [BeforeTemperature (bce_with_logits (data logits) (data labels))
                            (Fin ece_before);
          AfterTemperature
            (bce_with_logits
               (data (temperature_scale (set_temperature self t) logits))
               (data labels))
            (Fin ece_after)] /\
     0 <= ece_before /\ ece_before <= 1 /\ 0 <= ece_after /\ ece_after <= 1).
Proof.
  intro Hc. unfold calibrate. rewrite Hc. unfold nll_criterion. split; intro Hn.
  - apply Nat.eqb_neq in Hn. now rewrite Hn.
  - rewrite (proj2 (Nat.eqb_eq _ _) Hn).
    set (t := nth 0 (lbfgs_step (1 # 100) 50 _ [temperature self])
                  (temperature self)).
    assert (Hlen : length (data logits) = length (data labels)) by exact Hn.
    assert (Hlen' : length (data (temperature_scale (set_temperature self t) logits))
                    = length (data labels)).
    { unfold temperature_scale, tensor_div_scalar. cbn [data].
      now rewrite length_map. }
    destruct (forward_samples 15 _ _ Hlen) as (e0 & He0 & E0).
    destruct (forward_samples 15 _ _ Hlen') as (e1 & He1 & E1).
    exists t, e0, e1. rewrite He0, He1. cbn [temperature set_temperature].
    split; [reflexivity |]. split; [reflexivity |].
    pose proof (ece_samples_bounds 15 (combine (map sigmoid (data logits))
                                               (data labels))) as [B0 B0'].
    pose proof (ece_samples_bounds 15
                  (combine (map sigmoid
                              (data (temperature_scale (set_temperature self t)
                                                       logits)))
                           (data labels))) as [B1 B1'].
    rewrite E0, E1. repeat split; assumption.
Qed.

(** ** The outcome of search_threshold *)

Lemma islice_raises {A : Type} (it : list A) (stop : Z) (e : exn) :
  islice it stop = Raise e -> e = IsliceValueError.
Proof.
  unfold islice. destruct (stop <? 0)%Z; [| discriminate]. congruence.
Qed.

(** X15. [search_threshold] never changes the searcher.  When it returns a
    threshold, at least one batch was selected and exactly one line is
    logged, with that threshold and its score on the collected data.  When it
    raises, nothing is logged and the exception is that of [islice] (negative
    limit) or of [np.concatenate] (no batch): the arg-max never fails. *)
Theorem search_threshold_outcome
    (searcher : ThresholdMoving Model) (max_metric : list Q -> list Z -> Q)
    (dm : DataModule) (val_fraction : Q) :
  let r := search_threshold sigmoid calibrated_forward val_dataloader
                            searcher max_metric dm val_fraction in
  final r = searcher /\
  (forall t, returned r = Ok t ->
     exists b bs probabilities labels,
       islice (val_dataloader dm true)
              (batch_limit_of (val_dataloader dm true) val_fraction)
       = Ok (b :: bs) /\
       collect_probabilities sigmoid calibrated_forward val_dataloader
                             searcher dm val_fraction
       = Ok (probabilities, labels) /\
       logged r
       = [ThresholdScore t (max_metric labels (to_labels probabilities t))]) /\
  (forall e, returned r = Raise e ->
     logged r = [] /\ (e = IsliceValueError \/ e = ConcatenateEmptyList)).
Proof.
  intro r. subst r. unfold search_threshold, collect_probabilities.
  destruct (islice (val_dataloader dm true)
                   (batch_limit_of (val_dataloader dm true) val_fraction))
    as [[| b bs] | e0] eqn:Hsel.
  - cbn. split; [reflexivity |]. split; [discriminate |].
    intros e He. injection He as <-. split; [reflexivity | now right].
  - cbn [bind map np_concatenate].
    set (probabilities := concat (map sigmoid (calibrated_forward (tm_model searcher) (fst b))
                            :: map (fun b0 : Inputs * list Q =>
                                      map sigmoid
                                        (calibrated_forward (tm_model searcher) (fst b0)))
                                   bs)).
    set (labels := concat (snd b :: map snd bs)).
    destruct (np_argmax_nonempty (threshold_scores max_metric probabilities labels))
      as (k & Hk & Hlt & _).
    { intro E. apply (f_equal (@length Q)) in E.
      rewrite threshold_scores_length in E. discriminate. }
    rewrite threshold_scores_length in Hlt. rewrite Hk. cbn [returned final logged].
    split; [reflexivity |]. split; [| discriminate].
    intros t Ht. injection Ht as <-.
    exists b, bs, probabilities, labels.
    split; [reflexivity |]. split; [reflexivity |].
    now rewrite threshold_scores_nth.
  - cbn. split; [reflexivity |]. split; [discriminate |].
    intros e He. injection He as <-. split; [reflexivity |].
    left. exact (islice_raises _ _ _ Hsel).
Qed.

(** ** The plateau of the returned threshold *)

Lemma thresholds_step k :
  (S k < 1000)%nat ->
  nth k thresholds 0 == nth (S k) thresholds 0 - (1 # 1000).
Proof.
  intro H. rewrite (thresholds_nth k), (thresholds_nth (S k)) by lia.
  rewrite of_nat_S. field.
Qed.

(** X17. The threshold returned is the lowest of its plateau: it is 0, or
    some collected probability [p] lies just below it, within one grid step
    ([t - 0.001 <= p < t]).  Between two grid points that no probability
    separates the labels, and so the scores, are the same, and the arg-max
    keeps the first. *)
Theorem search_threshold_just_above
    (searcher : ThresholdMoving Model) (max_metric : list Q -> list Z -> Q)
    (dm : DataModule) (val_fraction : Q) (b : Inputs * list Q)
    (bs : list (Inputs * list Q)) (t : Q) :
  islice (val_dataloader dm true)
         (batch_limit_of (val_dataloader dm true) val_fraction) = Ok (b :: bs) ->
  returned (search_threshold sigmoid calibrated_forward val_dataloader
                             searcher max_metric dm val_fraction) = Ok t ->
  let probabilities :=
    concat (map (fun b => map sigmoid
                            (calibrated_forward (tm_model searcher) (fst b)))
                (b :: bs)) in
  t == 0 \/
  exists p, In p probabilities /\ t - (1 # 1000) <= p /\ p < t.
Proof.
  intros Hsel Hret probabilities. unfold search_threshold in Hret.
  rewrite (collect_probabilities_batches _ _ _ _ _ Hsel) in Hret.
  fold probabilities in Hret.
  set (labels := concat (map snd (b :: bs))) in Hret.
  destruct (np_argmax_nonempty (threshold_scores max_metric probabilities labels))
    as (k & Hk & Hlt & _ & Hfirst).
  { intro E. apply (f_equal (@length Q)) in E.
    rewrite threshold_scores_length in E. discriminate. }
  rewrite threshold_scores_length in Hlt.
  rewrite Hk in Hret. cbn [returned] in Hret.
  assert (Ht : nth k thresholds 0 = t) by congruence.
  rewrite <- Ht. clear Ht Hret. destruct k as [| k].
  { left. rewrite thresholds_nth by lia. change (of_nat 0) with 0.
    unfold Qdiv. apply Qmult_0_l. }
  right.
  set (lo := nth k thresholds 0). set (hi := nth (S k) thresholds 0).
  assert (Hstep : lo == hi - (1 # 1000)) by (apply thresholds_step; lia).
  destruct (existsb (fun p => Qleb lo p && Qltb p hi) probabilities) eqn:Ex.
  - apply existsb_exists in Ex. destruct Ex as (p & Hp & Htest).
    apply andb_true_iff in Htest. destruct Htest as [H1 H2].
    reflect_comparisons. exists p. split; [exact Hp |]. split; lra.
  - exfalso.
    assert (Hsame : to_labels probabilities hi = to_labels probabilities lo).
    { unfold to_labels. apply map_ext_in. intros p Hp.
      assert (Htest : Qleb lo p && Qltb p hi = false).
      { destruct (Qleb lo p && Qltb p hi) eqn:E; [| reflexivity].
        assert (existsb (fun p => Qleb lo p && Qltb p hi) probabilities = true)
          by (apply existsb_exists; exists p; split; assumption).
        congruence. }
      destruct (Qleb hi p) eqn:E1; destruct (Qleb lo p) eqn:E2;
        try reflexivity; exfalso.
      - reflect_comparisons. lra.
      - assert (E3 : Qltb p hi = true) by (apply Qltb_lt; now apply Qleb_gt).
        rewrite E3 in Htest. discriminate. }
    specialize (Hfirst k (Nat.lt_succ_diag_r k)).
    rewrite !threshold_scores_nth in Hfirst by lia.
    fold lo hi in Hfirst. rewrite Hsame in Hfirst.
    exact (Qlt_irrefl _ Hfirst).
Qed.

End PosthocProperties.

(** * The theorems at concrete inputs *)

(** Evaluation of the definitions on small inputs. *)

Example forward_two_bins :
  forward example_sigmoid (ECELoss_init 2) [2; 2; -2; -2] [1; 1; 0; 0]
  = Fin (128000000000000 # 256000000000000).
Proof. vm_compute. reflexivity. Qed.

Example ECELoss_init_three :
  ECELoss_init 3
  = {| bin_lowers := [0 # 3; 1 # 3; 2 # 3]; bin_uppers := [1 # 3; 2 # 3; 3 # 3] |}.
Proof. vm_compute. reflexivity. Qed.

Example np_argmax_first : np_argmax [1; 3; 2; 3] = Ok 1%nat.
Proof. reflexivity. Qed.

Example int_truncates : int (-7 # 2) = (-3)%Z /\ int (7 # 2) = 3%Z.
Proof. split; reflexivity. Qed.

Example search_threshold_example :
  returned (example_search_threshold [([2; -2], [1; 0])] 1) = Ok (0 + 120 * (1 # 1000)).
Proof. vm_compute. reflexivity. Qed.

Example calibrate_size_mismatch :
  returned (example_calibrate [([2; -2], [1; 0; 1])] 1) = Raise TargetSizeMismatch.
Proof. reflexivity. Qed.

Example calibrate_negative_fraction :
  returned (example_calibrate [([2; -2], [1; 0])] (-3)) = Raise IsliceValueError.
Proof. reflexivity. Qed.


Lemma forward_in_unit_interval_witness :
  length [2; 2; -2; -2] = length [1; 1; 0; 0] /\
  exists v,
    forward example_sigmoid (ECELoss_init 2) [2; 2; -2; -2] [1; 1; 0; 0] = Fin v /\
    0 <= v /\ v <= 1.
Proof.
  split; [reflexivity |].
  exact (forward_in_unit_interval example_sigmoid 2
           [2; 2; -2; -2] [1; 1; 0; 0] eq_refl).
Defined.


(** One batch of two examples, all of it selected. *)
Lemma search_threshold_spec_witness :
  islice (example_loader [([2; -2], [1; 0])] true)
         (batch_limit_of (example_loader [([2; -2], [1; 0])] true) 1)
    = Ok [([2; -2], [1; 0])] /\
  exists k : nat,
    (k < 1000)%nat /\
    returned (example_search_threshold [([2; -2], [1; 0])] 1)
      = Ok (nth k thresholds 0) /\
    nth k thresholds 0 == of_nat k / 1000.
Proof.
  split; [reflexivity |].
  destruct (search_threshold_spec example_sigmoid example_model example_loader
              example_searcher example_metric [([2; -2], [1; 0])] 1
              ([2; -2], [1; 0]) [] eq_refl)
    as (k & Hk & Hret & _ & _ & Hgrid & _).
  exists k. split; [exact Hk |]. split; [exact Hret | exact Hgrid].
Defined.

(** One batch, and a fraction that selects half a batch: none. *)
Lemma zero_batches_raise_witness :
  islice (example_loader [([2; -2], [1; 0])] true)
         (batch_limit_of (example_loader [([2; -2], [1; 0])] true) (1 # 2))
    = Ok [] /\
  returned (example_calibrate [([2; -2], [1; 0])] (1 # 2)) = Raise CatEmptyList /\
  final (example_calibrate [([2; -2], [1; 0])] (1 # 2)) = example_calibrator /\
  returned (example_search_threshold [([2; -2], [1; 0])] (1 # 2))
    = Raise ConcatenateEmptyList.
Proof.
  split; [reflexivity |].
  exact (zero_batches_raise example_sigmoid example_bce example_lbfgs
           example_model example_model example_loader
           example_calibrator example_searcher example_metric
           [([2; -2], [1; 0])] (1 # 2) eq_refl).
Defined.

(** * The further properties at concrete inputs *)



Lemma bins_partition_witness :
  (0 < 2)%nat /\
  exists b, (b < 2)%nat /\
    Qltb (nth b (bin_lowers (ECELoss_init 2)) 0) (881 # 1000)
    && Qleb (881 # 1000) (nth b (bin_uppers (ECELoss_init 2)) 0) = true.
Proof.
  split; [lia |].
  destruct (proj1 (bins_partition 2 (881 # 1000) (Nat.lt_0_succ 1)))
    as (b & Hb & Ht & _); [reflexivity | discriminate |].
  exists b. split; assumption.
Defined.





Lemma calibrate_outcome_witness :
  collect_logits example_model example_loader example_calibrator
                 [([2; -2], [1; 0])] 1
  = Ok (reshape_column [2; -2], reshape_column [1; 0]) /\
  numel (reshape_column [2; -2]) = numel (reshape_column [1; 0]) /\
  exists t, returned (example_calibrate [([2; -2], [1; 0])] 1) = Ok t /\
            final (example_calibrate [([2; -2], [1; 0])] 1)
            = set_temperature example_calibrator t.
Proof.
  split; [reflexivity |]. split; [reflexivity |].
  destruct (proj2 (calibrate_outcome example_sigmoid example_bce example_lbfgs
                     example_model example_loader example_calibrator
                     [([2; -2], [1; 0])] 1
                     (reshape_column [2; -2]) (reshape_column [1; 0]) eq_refl)
                  eq_refl)
    as (t & e0 & e1 & _ & Hrun & _).
  exists t. unfold example_calibrate. rewrite Hrun. split; reflexivity.
Defined.

Lemma search_threshold_just_above_witness :
  islice (example_loader [([2; -2], [1; 0])] true)
         (batch_limit_of (example_loader [([2; -2], [1; 0])] true) 1)
  = Ok [([2; -2], [1; 0])] /\
  returned (example_search_threshold [([2; -2], [1; 0])] 1)
  = Ok (nth 120 thresholds 0) /\
  (nth 120 thresholds 0 == 0 \/
   exists p, In p (map example_sigmoid [2; -2] ++ []) /\
             nth 120 thresholds 0 - (1 # 1000) <= p /\ p < nth 120 thresholds 0).
Proof.
  assert (H : returned (example_search_threshold [([2; -2], [1; 0])] 1)
              = Ok (nth 120 thresholds 0)) by (vm_compute; reflexivity).
  split; [reflexivity |]. split; [exact H |].
  exact (search_threshold_just_above example_sigmoid example_model example_loader
           example_searcher example_metric [([2; -2], [1; 0])] 1
           ([2; -2], [1; 0]) [] (nth 120 thresholds 0) eq_refl H).
Defined.
